(** * fix_encoding.py: the Main.java em-dash patcher

    The script reads [src/main/java/converter/Main.java] as UTF-8 text,
    applies two literal [str.replace] calls to the text, writes the text
    back to the same path and prints one confirmation line.

    The development has three layers:
    - [Str]: Python's string operations used by the script, over any
      character type with decidable equality, with the theory of
      substitution for patterns that share a head character;
    - the three string constants of the script and the transformation
      of lines 8-9 ([fix_encoding]);
    - [Py]: the file and console effects of the script (open, read,
      write, print) as a state-and-exception monad over a file system,
      and the script itself ([Py.main]). *)

From Stdlib Require Import NArith String Ascii.
From Stdlib Require Strings.Byte.
From stdpp Require Import base list gmap strings.

Set Default Proof Using "Type".

(** ** Python string operations *)

Module Str.
Section ops.
Context {A : Type} `{!EqDecision A}.
Implicit Types (p old new s t u w : list A) (c m : A).

(** [s.startswith(p)]. *)
Fixpoint startswith p s : bool :=
  match p, s with
  | [], _ => true
  | _ :: _, [] => false
  | a :: p', b :: s' => bool_decide (a = b) && startswith p' s'
  end.

(** The scanning loop of [s.replace(old, new)] for a non-empty [old]:
    [skip] counts the characters of a match still to be consumed.  At a
    position where [old] matches, [new] is emitted and the scan resumes
    after the match; elsewhere the character is copied. *)
Fixpoint replace_from old new (skip : nat) s : list A :=
  match s with
  | [] => []
  | c :: s' =>
      match skip with
      | S k => replace_from old new k s'
      | O =>
          if startswith old s
          then new ++ replace_from old new (pred (length old)) s'
          else c :: replace_from old new 0 s'
      end
  end.

(** [s.replace(old, new)].  For the empty pattern Python inserts [new]
    before every character and at the end. *)
Definition replace old new s : list A :=
  match old with
  | [] => new ++ flat_map (λ c, c :: new) s
  | _ :: _ => replace_from old new 0 s
  end.

(** Number of positions of [s] (end position included) at which [p]
    matches. *)
Fixpoint occurrences p s : nat :=
  match s with
  | [] => if startswith p [] then 1 else 0
  | _ :: s' => (if startswith p s then 1 else 0) + occurrences p s'
  end.

(** The loop of [s.count(p)] for a non-empty [p]: matches are counted
    left to right without overlap. *)
Fixpoint count_from p (skip : nat) s : nat :=
  match s with
  | [] => 0
  | _ :: s' =>
      match skip with
      | S k => count_from p k s'
      | O =>
          if startswith p s
          then S (count_from p (pred (length p)) s')
          else count_from p 0 s'
      end
  end.

(** [s.count(p)]. *)
Definition count p s : nat :=
  match p with
  | [] => S (length s)
  | _ :: _ => count_from p 0 s
  end.

(** What "every occurrence replaced, left to right" means, stated
    without reference to the scanning loop: either [old] occurs nowhere
    and the string is kept, or the string splits at the leftmost
    occurrence of [old], which becomes [new], and the rest is
    substituted in the same way. *)
Inductive substituted old new : list A → list A → Prop :=
  | substituted_done s :
      occurrences old s = 0 → substituted old new s s
  | substituted_step u t t' :
      (∀ u1 c u2, u = u1 ++ c :: u2 →
                  startswith old (c :: u2 ++ old ++ t) = false) →
      substituted old new t t' →
      substituted old new (u ++ old ++ t) (u ++ new ++ t').

(** A pattern is headed by [m] when [m] is its first character and
    occurs nowhere else in it. *)
Definition headed m p : Prop :=
  match p with
  | [] => False
  | c :: p' => c = m ∧ m ∉ p'
  end.

End ops.
#[global] Arguments replace : simpl never.
#[global] Arguments count : simpl never.
End Str.

(** ** The strings of the script *)

(** A Python [str] is a sequence of Unicode code points. *)
Definition char : Type := N.
Definition str : Type := list char.

(** An ASCII literal as a [str]. *)
Definition lit (s : string) : str := N_of_ascii <$> list_ascii_of_string s.

Definition quote : char := 0x22%N.
Definition backslash : char := 0x5C%N.
Definition newline : char := 0x0A%N.
Definition carriage_return : char := 0x0D%N.

(** Line 8, first argument: [indexOf(] followed by a quote, U+00E2,
    U+20AC, two quotes and [)]: the UTF-8 bytes of an em-dash read in a
    one-byte encoding. *)
Definition pattern_A : str :=
  lit "indexOf(" ++ [quote; 0xE2%N; 0x20AC%N; quote; quote] ++ lit ")".

(** Line 9, first argument: [indexOf(], a quote, the em-dash U+2014, a
    quote and [)]. *)
Definition pattern_B : str :=
  lit "indexOf(" ++ [quote; 0x2014%N; quote] ++ lit ")".

(** Lines 8 and 9, second argument.  The Python literal spells the
    backslash twice, so the value holds one backslash followed by
    [u2014]: six characters between the quotes, not an em-dash. *)
Definition replacement : str :=
  lit "indexOf(" ++ [quote; backslash] ++ lit "u2014" ++ [quote] ++ lit ")".

(** Lines 4 and 11. *)
Definition target : string := "src/main/java/converter/Main.java".

(** Line 14. *)
Definition message : str := lit "Fixed encoding issues in Main.java".

(** Lines 8-9: the two rebindings of [content]. *)
Definition fix_encoding (content : str) : str :=
  let content := Str.replace pattern_A replacement content in
  let content := Str.replace pattern_B replacement content in
  content.

(** The same two calls in the opposite order. *)
Definition fix_encoding_swapped (content : str) : str :=
  let content := Str.replace pattern_B replacement content in
  let content := Str.replace pattern_A replacement content in
  content.

(** The head character shared by the three strings. *)
Definition marker : char := 0x69%N.

(** ** Files, console and the script *)

Module Py.

Definition byte : Type := Byte.byte.

(** What [open] puts between the bytes of a file and the text the
    script sees: the codec and the newline translation of text mode.
    Both directions can fail. *)
Record text_layer := TextLayer {
  decode : list byte → option str;
  encode : str → option (list byte);
}.

(** The platform: the text layer that [open] builds for an encoding
    name, if the name is known. *)
Class Platform := text_layer_for : string → option text_layer.

(** A file: its bytes and whether the process may read and write it. *)
Record file := File {
  data : list byte;
  readable : bool;
  writable : bool;
}.

(** Calls of [open], as (path, mode, encoding). *)
Inductive event := Open (path mode enc : string).

Record world := World {
  files : gmap string file;
  stdout : str;
  log : list event;
}.

Inductive error :=
  | FileNotFoundError
  | PermissionError
  | LookupError
  | ValueError
  | UnsupportedOperation
  | UnicodeDecodeError
  | UnicodeEncodeError.

Inductive outcome (A : Type) :=
  | Returned (x : A)
  | Raised (e : error).
Arguments Returned {A} x.
Arguments Raised {A} e.

(** Effects change the world and either return or raise; what was done
    before an exception stays done. *)
Definition io (A : Type) : Type := world → world * outcome A.

#[global] Instance io_ret : MRet io := λ A x w, (w, Returned x).

#[global] Instance io_bind : MBind io := λ A B k m w,
  match m w with
  | (w', Returned x) => k x w'
  | (w', Raised e) => (w', Raised e)
  end.

Definition raise {A} (e : error) : io A := λ w, (w, Raised e).

Definition get_file (path : string) : io (option file) :=
  λ w, (w, Returned (files w !! path)).

Definition put_file (path : string) (f : file) : io unit :=
  λ w, (World (<[path := f]> (files w)) (stdout w) (log w), Returned ()).

Definition record_event (ev : event) : io unit :=
  λ w, (World (files w) (stdout w) (log w ++ [ev]), Returned ()).

(** An open text file. *)
Record handle := Handle {
  h_path : string;
  h_mode : string;
  h_layer : text_layer;
}.

Section effects.
Context {P : Platform}.

(** Opening the file itself.  Reading needs an existing, readable
    file.  Writing truncates an existing writable file and creates a
    missing one. *)
Definition open_raw (path mode : string) : io unit :=
  f ← get_file path;
  if decide (mode = "r") then
    match f with
    | None => raise FileNotFoundError
    | Some f => if readable f then mret () else raise PermissionError
    end
  else if decide (mode = "w") then
    match f with
    | None => put_file path (File [] true true)
    | Some f =>
        if writable f then put_file path (File [] (readable f) (writable f))
        else raise PermissionError
    end
  else raise ValueError.

(** [open(path, mode, encoding=enc)] for the modes ['r'] and ['w']:
    the file is opened first, then the text layer is built on it. *)
Definition open_ (path mode enc : string) : io handle :=
  record_event (Open path mode enc);;
  open_raw path mode;;
  match text_layer_for enc with
  | None => raise LookupError
  | Some tl => mret (Handle path mode tl)
  end.

(** [f.read()]: the whole file, through the text layer. *)
Definition read (h : handle) : io str :=
  if decide (h_mode h = "r") then
    f ← get_file (h_path h);
    match f with
    | None => raise FileNotFoundError
    | Some f =>
        match decode (h_layer h) (data f) with
        | None => raise UnicodeDecodeError
        | Some s => mret s
        end
    end
  else raise UnsupportedOperation.

(** [f.write(s)]: the text goes through the text layer and is appended
    to the file.  A failing device (a full disk, an I/O error while
    writing or closing) is outside this model: the only way [write]
    raises here is the encoding. *)
Definition write (h : handle) (s : str) : io unit :=
  if decide (h_mode h = "w") then
    match encode (h_layer h) s with
    | None => raise UnicodeEncodeError
    | Some bs =>
        f ← get_file (h_path h);
        match f with
        | None => raise FileNotFoundError
        | Some f =>
            put_file (h_path h) (File (data f ++ bs) (readable f) (writable f))
        end
    end
  else raise UnsupportedOperation.

(** [print(s)]. *)
Definition print (s : str) : io unit :=
  λ w, (World (files w) (stdout w ++ s ++ [newline]) (log w), Returned ()).

(** [with open(path, mode, encoding=enc) as f: body].  Closing the file
    changes nothing in the world: writes take effect when issued. *)
Definition with_open {A} (path mode enc : string) (body : handle → io A) : io A :=
  f ← open_ path mode enc;
  body f.

(** The script, lines 4-14. *)
Definition main : io unit :=
  content ← with_open target "r" "utf-8" (λ f, read f);
  let content := Str.replace pattern_A replacement content in
  let content := Str.replace pattern_B replacement content in
  with_open target "w" "utf-8" (λ f, write f content);;
  print message.

End effects.

(** The run of the script from a world. *)
Definition run {P : Platform} (w : world) : world * outcome unit := main w.

(** What a run printed: the standard output past its initial length. *)
Definition printed (w w' : world) : str := drop (length (stdout w)) (stdout w').

(** The calls of [open] a run made. *)
Definition opened (w w' : world) : list event := drop (length (log w)) (log w').

End Py.

(** ** A concrete text layer: strict UTF-8 with newline translation

    The layer Python builds for [encoding='utf-8'] and the default
    [newline=None]: on reading, bytes are decoded strictly and the line
    ends CR LF and CR become LF; on writing, LF becomes the platform's
    line separator and the text is encoded. *)

Module Utf8.
Import Py.
Local Open Scope N_scope.

Definition of_byte (b : byte) : N := Byte.to_N b.
Definition to_byte (n : N) : byte := default Byte.x00 (Byte.of_N n).

Definition continuation (n : N) : bool := (0x80 <=? n) && (n <=? 0xBF).
Definition surrogate (n : N) : bool := (0xD800 <=? n) && (n <=? 0xDFFF).

Fixpoint decode_bytes (bs : list byte) : option str :=
  match bs with
  | [] => Some []
  | b0 :: r0 =>
      let n0 := of_byte b0 in
      if n0 <? 0x80 then cons n0 <$> decode_bytes r0
      else
        match r0 with
        | [] => None
        | b1 :: r1 =>
            let n1 := of_byte b1 in
            if negb (continuation n1) then None
            else if n0 <? 0xC2 then None
            else if n0 <? 0xE0 then
              cons ((n0 - 0xC0) * 0x40 + (n1 - 0x80)) <$> decode_bytes r1
            else
              match r1 with
              | [] => None
              | b2 :: r2 =>
                  let n2 := of_byte b2 in
                  if negb (continuation n2) then None
                  else if n0 <? 0xF0 then
                    let cp := (n0 - 0xE0) * 0x1000 + (n1 - 0x80) * 0x40 + (n2 - 0x80) in
                    if (cp <? 0x800) || surrogate cp then None
                    else cons cp <$> decode_bytes r2
                  else
                    match r2 with
                    | [] => None
                    | b3 :: r3 =>
                        let n3 := of_byte b3 in
                        if negb (continuation n3) then None
                        else if 0xF4 <? n0 then None
                        else
                          let cp := (n0 - 0xF0) * 0x40000 + (n1 - 0x80) * 0x1000
                                    + (n2 - 0x80) * 0x40 + (n3 - 0x80) in
                          if (cp <? 0x10000) || (0x10FFFF <? cp) then None
                          else cons cp <$> decode_bytes r3
                    end
              end
        end
  end.

Definition encode_char (cp : char) : option (list byte) :=
  if cp <? 0x80 then Some [to_byte cp]
  else if cp <? 0x800 then
    Some [to_byte (0xC0 + cp / 0x40); to_byte (0x80 + cp mod 0x40)]
  else if cp <? 0x10000 then
    if surrogate cp then None
    else Some [to_byte (0xE0 + cp / 0x1000);
               to_byte (0x80 + (cp / 0x40) mod 0x40);
               to_byte (0x80 + cp mod 0x40)]
  else if cp <=? 0x10FFFF then
    Some [to_byte (0xF0 + cp / 0x40000);
          to_byte (0x80 + (cp / 0x1000) mod 0x40);
          to_byte (0x80 + (cp / 0x40) mod 0x40);
          to_byte (0x80 + cp mod 0x40)]
  else None.

Fixpoint encode_chars (s : str) : option (list byte) :=
  match s with
  | [] => Some []
  | c :: s' =>
      match encode_char c, encode_chars s' with
      | Some bs, Some bs' => Some (bs ++ bs')
      | _, _ => None
      end
  end.

(** Reading with [newline=None]. *)
Fixpoint universal_newlines (s : str) : str :=
  match s with
  | [] => []
  | c :: s' =>
      if c =? carriage_return then
        newline ::
          match s' with
          | [] => []
          | d :: s'' =>
              if d =? newline then universal_newlines s''
              else universal_newlines s'
          end
      else c :: universal_newlines s'
  end.

(** Writing with [newline=None]. *)
Definition translate_newlines (linesep : str) (s : str) : str :=
  flat_map (λ c, if c =? newline then linesep else [c]) s.

Definition layer (linesep : str) : text_layer :=
  TextLayer (λ bs, universal_newlines <$> decode_bytes bs)
            (λ s, encode_chars (translate_newlines linesep s)).

(** A platform that knows the one encoding the script names. *)
Definition platform (linesep : str) : Platform :=
  λ enc, if decide (enc = "utf-8"%string) then Some (layer linesep) else None.

Definition posix : Platform := platform [newline].
Definition windows : Platform := platform [carriage_return; newline].

(** The UTF-8 bytes of a text, for building files in examples. *)
Definition bytes_of (s : str) : list byte := default [] (encode_chars s).

End Utf8.

(** ** Example inputs *)

(** Scenario 1, input and output line: [if (line.indexOf(...)  >= 0)]
    with the corrupted sequence, respectively the escape, between the
    quotes. *)
Definition scenario1_in : str :=
  lit "if (line.indexOf(" ++ [quote; 0xE2%N; 0x20AC%N; quote; quote] ++ lit ")  >= 0)".
Definition scenario1_out : str :=
  lit "if (line.indexOf(" ++ [quote; backslash] ++ lit "u2014" ++ [quote]
    ++ lit ")  >= 0)".

(** Scenario 2, input and output line: [int idx = text.indexOf(...);]
    with the em-dash, respectively the escape, between the quotes. *)
Definition scenario2_in : str :=
  lit "int idx = text.indexOf(" ++ [quote; 0x2014%N; quote] ++ lit ");".
Definition scenario2_out : str :=
  lit "int idx = text.indexOf(" ++ [quote; backslash] ++ lit "u2014" ++ [quote]
    ++ lit ");".

(** A line that ends in CR LF and holds neither pattern. *)
Definition crlf_line : str := lit "a" ++ [carriage_return; newline].

(** The same line ending in LF. *)
Definition lf_line : str := lit "a" ++ [newline].


(** Scenario 3: [System.out.println("hello");]. *)
Definition scenario3 : str :=
  lit "System.out.println(" ++ [quote] ++ lit "hello" ++ [quote] ++ lit ");".

(** A world whose only files are the target, holding [s] in UTF-8, and
    a bystander. *)
Definition world_with (s : str) : Py.world :=
  Py.World
    (<[target := Py.File (Utf8.bytes_of s) true true]>
       (<["README.md" := Py.File (Utf8.bytes_of (lit "x86doc")) true true]> ∅))
    [] [].

(** A world that holds the target alone and has printed before. *)
Definition world_only (s : str) : Py.world :=
  Py.World {[target := Py.File (Utf8.bytes_of s) true true]} (lit ">>> ") [].

(** A world without the target file. *)
Definition world_without : Py.world :=
  Py.World {["README.md" := Py.File (Utf8.bytes_of (lit "x86doc")) true true]} [] [].

(** A world whose target file may not be read. *)
Definition world_unreadable (s : str) : Py.world :=
  Py.World {[target := Py.File (Utf8.bytes_of s) false true]} [] [].


(** A world whose target file may be read but not written. *)
Definition world_write_protected (s : str) : Py.world :=
  Py.World {[target := Py.File (Utf8.bytes_of s) true false]} [] [].

(** A world whose target file holds the given bytes. *)
Definition world_bytes (bs : list Py.byte) : Py.world :=
  Py.World {[target := Py.File bs true true]} [] [].

(** The world a run on a POSIX platform leaves. *)
Definition after_run (w : Py.world) : Py.world := (Py.run (P := Utf8.posix) w).1.

(** * Theory of the string operations *)

Section str_facts.
Context {A : Type} `{!EqDecision A}.
Implicit Types (p old new s t u w : list A) (c m : A).

Lemma startswith_app p t : Str.startswith p (p ++ t) = true.
Proof.
  induction p as [|a p IH]; simpl; [done|].
  by rewrite bool_decide_eq_true_2.
Qed.

Lemma startswith_true p s : Str.startswith p s = true → ∃ t, s = p ++ t.
Proof.
  revert s. induction p as [|a p IH]; intros s Hs.
  - by exists s.
  - destruct s as [|b s]; [done|]. simpl in Hs.
    apply andb_true_iff in Hs as [Hab Hps].
    apply bool_decide_eq_true in Hab as ->.
    destruct (IH _ Hps) as [t ->]. by exists t.
Qed.

Lemma startswith_head_ne m p' c s : m ≠ c → Str.startswith (m :: p') (c :: s) = false.
Proof. intros Hne. simpl. by rewrite bool_decide_eq_false_2. Qed.

Lemma replace_from_skip old new w t :
  Str.replace_from old new (length w) (w ++ t) = Str.replace_from old new 0 t.
Proof.
  induction w as [|a w IH]; simpl; [|done].
  by destruct t.
Qed.

Lemma replace_nil old new : old ≠ [] → Str.replace old new [] = [].
Proof. by destruct old. Qed.

Lemma replace_hit old new t :
  old ≠ [] → Str.replace old new (old ++ t) = new ++ Str.replace old new t.
Proof.
  destruct old as [|a old']; [done|]. intros _.
  unfold Str.replace.
  change ((a :: old') ++ t) with (a :: (old' ++ t)).
  cbn [Str.replace_from].
  change (a :: (old' ++ t)) with ((a :: old') ++ t).
  rewrite startswith_app. cbn [length pred].
  by rewrite replace_from_skip.
Qed.

Lemma replace_miss old new c s :
  Str.startswith old (c :: s) = false →
  Str.replace old new (c :: s) = c :: Str.replace old new s.
Proof.
  destruct old as [|a old']; [done|]. intros Hs.
  unfold Str.replace. cbn [Str.replace_from]. by rewrite Hs.
Qed.

(** Induction along the scan of [replace]: a match is consumed whole,
    any other character singly. *)
Lemma scan_ind old (Hold : old ≠ []) (Q : list A → Prop) :
  Q [] →
  (∀ t, Q t → Q (old ++ t)) →
  (∀ c s, Str.startswith old (c :: s) = false → Q s → Q (c :: s)) →
  ∀ s, Q s.
Proof.
  intros Hnil Hhit Hmiss s.
  assert (∀ n s, length s ≤ n → Q s) as Hn; [|by apply (Hn (length s))].
  clear s. induction n as [|n IH]; intros s Hlen.
  { destruct s; [done | simpl in Hlen; lia]. }
  destruct s as [|c s]; [done|].
  destruct (Str.startswith old (c :: s)) eqn:Hs.
  - destruct (startswith_true _ _ Hs) as [t Ht]. rewrite Ht.
    apply Hhit, IH.
    assert (length (c :: s) = length old + length t) as Hl
      by (by rewrite Ht, length_app).
    destruct old; [done|]. simpl in *. lia.
  - apply Hmiss; [done|]. apply IH. simpl in Hlen. lia.
Qed.

Lemma occurrences_nonempty_nil p : p ≠ [] → Str.occurrences p [] = 0.
Proof. by destruct p. Qed.

Lemma occurrences_cons p c s :
  Str.occurrences p (c :: s)
  = (if Str.startswith p (c :: s) then 1 else 0) + Str.occurrences p s.
Proof. done. Qed.

Lemma occurrences_empty_pos s : 0 < Str.occurrences [] s.
Proof. destruct s; simpl; lia. Qed.

(** A string in which [old] does not occur is left as it is. *)
Lemma replace_absent old new s : Str.occurrences old s = 0 → Str.replace old new s = s.
Proof.
  intros Hocc.
  assert (old ≠ []) as Hold.
  { intros ->. pose proof (occurrences_empty_pos s). lia. }
  induction s as [|c s IH]; [by apply replace_nil|].
  rewrite occurrences_cons in Hocc.
  destruct (Str.startswith old (c :: s)) eqn:Hs; [lia|].
  rewrite replace_miss by done. f_equal. apply IH. lia.
Qed.

(** The scanning loop meets the declarative reading of substitution. *)
Lemma substituted_cons old new c s t :
  Str.startswith old (c :: s) = false →
  Str.substituted old new s t → Str.substituted old new (c :: s) (c :: t).
Proof.
  intros Hs Hsub. destruct Hsub as [s Hocc | u t t' Hleft Hsub].
  - apply Str.substituted_done. rewrite occurrences_cons, Hs. lia.
  - apply (Str.substituted_step old new (c :: u) t t'); [|done].
    intros u1 c' u2 Hu. destruct u1 as [|d u1]; simplify_eq/=; [done|].
    by eapply Hleft.
Qed.

Lemma replace_substituted old new s :
  old ≠ [] → Str.substituted old new s (Str.replace old new s).
Proof.
  intros Hold. induction s as [|t IH|c s Hs IH] using (scan_ind old Hold).
  - rewrite replace_nil by done. apply Str.substituted_done.
    by apply occurrences_nonempty_nil.
  - rewrite replace_hit by done.
    apply (Str.substituted_step old new [] t); [|done].
    by intros [|??] ???.
  - rewrite replace_miss by done. by apply substituted_cons.
Qed.

Lemma substituted_replace old new s t :
  Str.substituted old new s t → t = Str.replace old new s.
Proof.
  induction 1 as [s Hocc | u t t' Hleft Hsub IH].
  - by rewrite replace_absent.
  - assert (old ≠ []) as Hold.
    { intros ->. clear -Hsub. induction Hsub as [s Hocc|]; [|done].
      pose proof (occurrences_empty_pos s). lia. }
    subst t'. induction u as [|c u IHu]; simpl.
    + by rewrite replace_hit.
    + rewrite replace_miss by (by apply (Hleft [] c u)).
      f_equal. apply IHu. intros u1 c' u2 ->. by apply (Hleft (c :: u1)).
Qed.

Lemma substituted_iff old new s t :
  old ≠ [] → Str.substituted old new s t ↔ t = Str.replace old new s.
Proof.
  intros Hold. split; [apply substituted_replace|].
  intros ->. by apply replace_substituted.
Qed.

End str_facts.

(** ** Patterns that share a head character

    [old] and [new] both start with [m].  A pattern headed by [m] can
    then only match where the scan of [replace] stands at an [m], so a
    substitution further right never makes or breaks a match. *)

Section headed.
Context {A : Type} `{!EqDecision A}.
Implicit Types (p old new s t u w : list A) (c m : A).

Lemma headed_inv m p : Str.headed m p → ∃ p', p = m :: p' ∧ m ∉ p'.
Proof. destruct p as [|c p']; [done|]. intros [-> ?]. eauto. Qed.

Lemma startswith_replace_unmarked m p old' new' s :
  m ∉ p →
  Str.startswith p (Str.replace (m :: old') (m :: new') s) = Str.startswith p s.
Proof.
  revert s. induction p as [|a p IH]; intros s Hm; [done|].
  apply not_elem_of_cons in Hm as [Hma Hmp].
  destruct s as [|c s]; [done|].
  destruct (Str.startswith (m :: old') (c :: s)) eqn:Hs.
  - destruct (startswith_true _ _ Hs) as [t Ht]. rewrite Ht.
    rewrite (replace_hit (m :: old')) by done. simpl.
    by rewrite bool_decide_eq_false_2 by done.
  - rewrite replace_miss by done. simpl. f_equal. by apply IH.
Qed.

Lemma startswith_cons_replace m p old' new' c s :
  Str.headed m p →
  Str.startswith p (c :: Str.replace (m :: old') (m :: new') s)
  = Str.startswith p (c :: s).
Proof.
  intros (p' & -> & Hm)%headed_inv. simpl. f_equal.
  by apply startswith_replace_unmarked.
Qed.

Lemma replace_unmarked_app m old' new w u :
  m ∉ w →
  Str.replace (m :: old') new (w ++ u) = w ++ Str.replace (m :: old') new u.
Proof.
  induction w as [|a w IH]; intros Hm; [done|].
  apply not_elem_of_cons in Hm as [Hma Hmw]. simpl.
  rewrite replace_miss by (by apply startswith_head_ne).
  f_equal. by apply IH.
Qed.

(** A block headed by [m] at which [old] does not match is copied. *)
Lemma replace_block m old' new w u :
  Str.headed m w →
  Str.startswith (m :: old') (w ++ u) = false →
  Str.replace (m :: old') new (w ++ u) = w ++ Str.replace (m :: old') new u.
Proof.
  intros (w' & -> & Hm)%headed_inv Hs. simpl in *.
  rewrite replace_miss by done. f_equal. by apply replace_unmarked_app.
Qed.

Lemma occurrences_unmarked_app m p' w u :
  m ∉ w → Str.occurrences (m :: p') (w ++ u) = Str.occurrences (m :: p') u.
Proof.
  induction w as [|a w IH]; intros Hm; [done|].
  apply not_elem_of_cons in Hm as [Hma Hmw].
  change ((a :: w) ++ u) with (a :: (w ++ u)).
  rewrite occurrences_cons, startswith_head_ne by done. by rewrite IH.
Qed.

Lemma occurrences_block m p w u :
  Str.headed m p → Str.headed m w →
  Str.occurrences p (w ++ u)
  = (if Str.startswith p (w ++ u) then 1 else 0) + Str.occurrences p u.
Proof.
  intros (p' & -> & Hp)%headed_inv (w' & -> & Hw)%headed_inv.
  change ((m :: w') ++ u) with (m :: (w' ++ u)).
  rewrite occurrences_cons. f_equal. by apply occurrences_unmarked_app.
Qed.

(** Occurrences of a third pattern [p] through a substitution of [old]
    by [new].  [po] and [pn] say whether [p] matches where [old],
    respectively [new], stands. *)
Lemma occurrences_replace m p old new (po pn : bool) s :
  Str.headed m p → Str.headed m old → Str.headed m new →
  (∀ t, Str.startswith p (old ++ t) = po) →
  (∀ t, Str.startswith p (new ++ t) = pn) →
  Str.occurrences p (Str.replace old new s) + (if po then Str.occurrences old s else 0)
  = Str.occurrences p s + (if pn then Str.occurrences old s else 0).
Proof.
  intros Hp Ho Hn Hpo Hpn.
  assert (old ≠ []) as Hold by (by destruct old).
  induction s as [|t IH|c s Hs IH] using (scan_ind old Hold).
  - rewrite replace_nil, (occurrences_nonempty_nil old) by done.
    by destruct po, pn.
  - rewrite replace_hit by done.
    rewrite (occurrences_block m p new), (occurrences_block m p old),
      (occurrences_block m old old), Hpo, Hpn, startswith_app by done.
    destruct po, pn; lia.
  - rewrite replace_miss by done.
    rewrite !occurrences_cons, Hs.
    destruct (headed_inv _ _ Ho) as (old' & -> & _).
    destruct (headed_inv _ _ Hn) as (new' & -> & _).
    rewrite (startswith_cons_replace m) by done.
    destruct po, pn; lia.
Qed.

Lemma count_from_skip p w t :
  Str.count_from p (length w) (w ++ t) = Str.count_from p 0 t.
Proof. induction w as [|a w IH]; simpl; [|done]. by destruct t. Qed.

(** For a headed pattern matches cannot overlap, and [s.count(p)] is
    the number of positions at which [p] matches. *)
Lemma count_occurrences m p s : Str.headed m p → Str.count p s = Str.occurrences p s.
Proof.
  intros Hp.
  assert (p ≠ []) as Hne by (by destruct p).
  induction s as [|t IH|c s Hs IH] using (scan_ind p Hne).
  - by destruct p.
  - rewrite (occurrences_block m p p), startswith_app, <-IH by done.
    destruct p as [|a p']; [done|]. unfold Str.count.
    change ((a :: p') ++ t) with (a :: (p' ++ t)). cbn [Str.count_from].
    change (a :: (p' ++ t)) with ((a :: p') ++ t). rewrite startswith_app.
    cbn [length pred]. by rewrite count_from_skip.
  - rewrite occurrences_cons, Hs, <-IH.
    destruct p as [|a p']; [done|]. unfold Str.count.
    cbn [Str.count_from]. by rewrite Hs.
Qed.

(** The two facts the script's patterns are used with, for headed
    [old] and [new]. *)
Lemma replace_keeps_match m p old new c s :
  Str.headed m p → Str.headed m old → Str.headed m new →
  Str.startswith p (c :: Str.replace old new s) = Str.startswith p (c :: s).
Proof.
  intros Hp (old' & -> & _)%headed_inv (new' & -> & _)%headed_inv.
  by apply startswith_cons_replace.
Qed.

Lemma replace_copies_block m old new w u :
  Str.headed m old → Str.headed m w →
  Str.startswith old (w ++ u) = false →
  Str.replace old new (w ++ u) = w ++ Str.replace old new u.
Proof.
  intros (old' & -> & _)%headed_inv Hw Hs. by apply (replace_block m).
Qed.

End headed.

(** * The script's strings *)

Ltac headed_tac :=
  split; [reflexivity | apply (bool_decide_unpack _); vm_compute; reflexivity].

Lemma headed_A : Str.headed marker pattern_A.
Proof. headed_tac. Qed.

Lemma headed_B : Str.headed marker pattern_B.
Proof. headed_tac. Qed.

Lemma headed_R : Str.headed marker replacement.
Proof. headed_tac. Qed.

Lemma pattern_A_nonempty : pattern_A ≠ [].
Proof. done. Qed.

Lemma pattern_B_nonempty : pattern_B ≠ [].
Proof. done. Qed.

(** The three strings agree on [indexOf(] and the quote and differ at
    the next character, so at most one of them matches at a position. *)
Lemma A_at_B t : Str.startswith pattern_A (pattern_B ++ t) = false.
Proof. reflexivity. Qed.

Lemma A_at_R t : Str.startswith pattern_A (replacement ++ t) = false.
Proof. reflexivity. Qed.

Lemma B_at_A t : Str.startswith pattern_B (pattern_A ++ t) = false.
Proof. reflexivity. Qed.

Lemma B_at_R t : Str.startswith pattern_B (replacement ++ t) = false.
Proof. reflexivity. Qed.

Lemma R_at_A t : Str.startswith replacement (pattern_A ++ t) = false.
Proof. reflexivity. Qed.

Lemma R_at_B t : Str.startswith replacement (pattern_B ++ t) = false.
Proof. reflexivity. Qed.

Create HintDb patterns.
#[local] Hint Resolve headed_A headed_B headed_R
  pattern_A_nonempty pattern_B_nonempty : patterns.

(** ** The transformation of lines 8-9 along one scan *)

Section transformation.
Implicit Types (content s t : str) (c : char).

Lemma fix_encoding_nil : fix_encoding [] = [].
Proof. reflexivity. Qed.

Lemma fix_encoding_A t : fix_encoding (pattern_A ++ t) = replacement ++ fix_encoding t.
Proof.
  unfold fix_encoding. rewrite replace_hit by auto with patterns.
  apply (replace_copies_block marker); auto using B_at_R with patterns.
Qed.

Lemma fix_encoding_B t : fix_encoding (pattern_B ++ t) = replacement ++ fix_encoding t.
Proof.
  unfold fix_encoding.
  rewrite (replace_copies_block marker) by auto using A_at_B with patterns.
  apply replace_hit; auto with patterns.
Qed.

Lemma fix_encoding_other c s :
  Str.startswith pattern_A (c :: s) = false →
  Str.startswith pattern_B (c :: s) = false →
  fix_encoding (c :: s) = c :: fix_encoding s.
Proof.
  intros HA HB. unfold fix_encoding. rewrite replace_miss by done.
  apply replace_miss.
  by rewrite (replace_keeps_match marker) by auto with patterns.
Qed.

Lemma fix_encoding_swapped_A t :
  fix_encoding_swapped (pattern_A ++ t) = replacement ++ fix_encoding_swapped t.
Proof.
  unfold fix_encoding_swapped.
  rewrite (replace_copies_block marker) by auto using B_at_A with patterns.
  apply replace_hit; auto with patterns.
Qed.

Lemma fix_encoding_swapped_B t :
  fix_encoding_swapped (pattern_B ++ t) = replacement ++ fix_encoding_swapped t.
Proof.
  unfold fix_encoding_swapped. rewrite replace_hit by auto with patterns.
  apply (replace_copies_block marker); auto using A_at_R with patterns.
Qed.

Lemma fix_encoding_swapped_other c s :
  Str.startswith pattern_A (c :: s) = false →
  Str.startswith pattern_B (c :: s) = false →
  fix_encoding_swapped (c :: s) = c :: fix_encoding_swapped s.
Proof.
  intros HA HB. unfold fix_encoding_swapped. rewrite replace_miss by done.
  apply replace_miss.
  by rewrite (replace_keeps_match marker) by auto with patterns.
Qed.

(** Induction along a scan that looks for both patterns. *)
Lemma scan_both_ind (Q : str → Prop) :
  Q [] →
  (∀ t, Q t → Q (pattern_A ++ t)) →
  (∀ t, Q t → Q (pattern_B ++ t)) →
  (∀ c s, Str.startswith pattern_A (c :: s) = false →
          Str.startswith pattern_B (c :: s) = false → Q s → Q (c :: s)) →
  ∀ s, Q s.
Proof.
  intros Hnil HA HB Hother s.
  assert (∀ n s, length s ≤ n → Q s) as Hn; [|by apply (Hn (length s))].
  clear s. induction n as [|n IH]; intros s Hlen.
  { destruct s; [done | simpl in Hlen; lia]. }
  destruct s as [|c s]; [done|].
  destruct (Str.startswith pattern_A (c :: s)) eqn:HsA.
  { destruct (startswith_true _ _ HsA) as [t Ht]. rewrite Ht.
    apply HA, IH. apply (f_equal length) in Ht.
    rewrite length_app in Ht. simpl in *. lia. }
  destruct (Str.startswith pattern_B (c :: s)) eqn:HsB.
  { destruct (startswith_true _ _ HsB) as [t Ht]. rewrite Ht.
    apply HB, IH. apply (f_equal length) in Ht.
    rewrite length_app in Ht. simpl in *. lia. }
  apply Hother; [done..|]. apply IH. simpl in Hlen. lia.
Qed.

(** Occurrences of the three strings after each call. *)
Lemma occurrences_R_after_A s :
  Str.occurrences replacement (Str.replace pattern_A replacement s)
  = Str.occurrences replacement s + Str.occurrences pattern_A s.
Proof.
  pose proof (occurrences_replace marker replacement pattern_A replacement
    false true s headed_R headed_A headed_R R_at_A (startswith_app _)) as H.
  simpl in H. lia.
Qed.

Lemma occurrences_A_after_A s :
  Str.occurrences pattern_A (Str.replace pattern_A replacement s) = 0.
Proof.
  pose proof (occurrences_replace marker pattern_A pattern_A replacement
    true false s headed_A headed_A headed_R (startswith_app _) A_at_R) as H.
  simpl in H. lia.
Qed.

Lemma occurrences_B_after_A s :
  Str.occurrences pattern_B (Str.replace pattern_A replacement s)
  = Str.occurrences pattern_B s.
Proof.
  pose proof (occurrences_replace marker pattern_B pattern_A replacement
    false false s headed_B headed_A headed_R B_at_A B_at_R) as H.
  simpl in H. lia.
Qed.

Lemma occurrences_R_after_B s :
  Str.occurrences replacement (Str.replace pattern_B replacement s)
  = Str.occurrences replacement s + Str.occurrences pattern_B s.
Proof.
  pose proof (occurrences_replace marker replacement pattern_B replacement
    false true s headed_R headed_B headed_R R_at_B (startswith_app _)) as H.
  simpl in H. lia.
Qed.

Lemma occurrences_B_after_B s :
  Str.occurrences pattern_B (Str.replace pattern_B replacement s) = 0.
Proof.
  pose proof (occurrences_replace marker pattern_B pattern_B replacement
    true false s headed_B headed_B headed_R (startswith_app _) B_at_R) as H.
  simpl in H. lia.
Qed.

Lemma occurrences_A_after_B s :
  Str.occurrences pattern_A (Str.replace pattern_B replacement s)
  = Str.occurrences pattern_A s.
Proof.
  pose proof (occurrences_replace marker pattern_A pattern_B replacement
    false false s headed_A headed_B headed_R A_at_B A_at_R) as H.
  simpl in H. lia.
Qed.

Lemma fix_encoding_no_A s : Str.occurrences pattern_A (fix_encoding s) = 0.
Proof.
  unfold fix_encoding. by rewrite occurrences_A_after_B, occurrences_A_after_A.
Qed.

Lemma fix_encoding_no_B s : Str.occurrences pattern_B (fix_encoding s) = 0.
Proof. unfold fix_encoding. apply occurrences_B_after_B. Qed.

Lemma fix_encoding_R s :
  Str.occurrences replacement (fix_encoding s)
  = Str.occurrences replacement s
    + Str.occurrences pattern_A s + Str.occurrences pattern_B s.
Proof.
  unfold fix_encoding.
  by rewrite occurrences_R_after_B, occurrences_R_after_A, occurrences_B_after_A.
Qed.

(** For the three strings Python's [count] is the number of
    occurrences. *)
Lemma count_patterns s :
  Str.count pattern_A s = Str.occurrences pattern_A s
  ∧ Str.count pattern_B s = Str.occurrences pattern_B s
  ∧ Str.count replacement s = Str.occurrences replacement s.
Proof.
  repeat split; apply (count_occurrences marker); auto with patterns.
Qed.

Lemma fix_encoding_absent s :
  Str.occurrences pattern_A s = 0 → Str.occurrences pattern_B s = 0 →
  fix_encoding s = s.
Proof.
  intros HA HB. unfold fix_encoding.
  rewrite (replace_absent pattern_A) by done. by apply replace_absent.
Qed.

End transformation.

(** * Properties of the transformation of lines 8-9 *)

(** C2, as stated, fails on a line that already holds the escape: the
    line of scenario 2 after patching contains neither pattern, and its
    image contains the replacement string once, not zero times. *)
Lemma replacement_occurrences_not_sum :
  ¬ (Str.occurrences replacement (fix_encoding scenario2_out)
       = Str.occurrences pattern_A scenario2_out
         + Str.occurrences pattern_B scenario2_out
     ∧ Str.occurrences pattern_A (fix_encoding scenario2_out) = 0
     ∧ Str.occurrences pattern_B (fix_encoding scenario2_out) = 0).
Proof. intros [Hsum _]. vm_compute in Hsum. discriminate. Qed.

(** C2, amended: the output contains the replacement string exactly
    N0 + N1 + N2 times, where N0, N1 and N2 count the occurrences of the
    replacement string, of pattern A and of pattern B in the input, and
    the output contains neither pattern. *)
Theorem replacement_occurrences (content : str) :
  Str.occurrences replacement (fix_encoding content)
    = Str.occurrences replacement content
      + Str.occurrences pattern_A content + Str.occurrences pattern_B content
  ∧ Str.occurrences pattern_A (fix_encoding content) = 0
  ∧ Str.occurrences pattern_B (fix_encoding content) = 0.
Proof.
  split; [apply fix_encoding_R|].
  split; [apply fix_encoding_no_A | apply fix_encoding_no_B].
Qed.

(** A content in which neither pattern occurs is returned as it is
    by the two calls. *)
Theorem fix_encoding_unchanged_without_patterns (content : str) :
  Str.occurrences pattern_A content = 0 →
  Str.occurrences pattern_B content = 0 →
  fix_encoding content = content.
Proof. apply fix_encoding_absent. Qed.

Lemma fix_encoding_unchanged_without_patterns_witness :
  Str.occurrences pattern_A scenario3 = 0
  ∧ Str.occurrences pattern_B scenario3 = 0
  ∧ fix_encoding scenario3 = scenario3.
Proof.
  split; [reflexivity|]. split; [reflexivity|].
  apply (fix_encoding_unchanged_without_patterns scenario3); reflexivity.
Defined.

(** C4: the transformation is idempotent; its result is a fixed
    point. *)
Theorem fix_encoding_idempotent (content : str) :
  fix_encoding (fix_encoding content) = fix_encoding content.
Proof.
  apply fix_encoding_absent; [apply fix_encoding_no_A | apply fix_encoding_no_B].
Qed.

(** C5: the two example lines of the specification are transformed
    into the stated lines, and the em-dash U+2014 does not occur in the
    results: between the quotes stand the six characters backslash, u,
    2, 0, 1, 4. *)
Theorem fix_encoding_scenarios :
  fix_encoding scenario1_in = scenario1_out
  ∧ fix_encoding scenario2_in = scenario2_out
  ∧ (0x2014%N ∉ fix_encoding scenario1_in)
  ∧ (0x2014%N ∉ fix_encoding scenario2_in)
  ∧ replacement = lit "indexOf(" ++ [quote] ++ [backslash; 0x75; 0x32; 0x30; 0x31; 0x34]%N
                    ++ [quote] ++ lit ")".
Proof.
  repeat split; try reflexivity;
    apply (bool_decide_unpack _); vm_compute; reflexivity.
Qed.

(** C9: the two substitutions commute. *)
Theorem substitutions_commute (content : str) :
  Str.replace pattern_B replacement (Str.replace pattern_A replacement content)
  = Str.replace pattern_A replacement (Str.replace pattern_B replacement content).
Proof.
  change (fix_encoding content = fix_encoding_swapped content).
  induction content as [|t IH|t IH|c s HA HB IH] using scan_both_ind.
  - reflexivity.
  - by rewrite fix_encoding_A, fix_encoding_swapped_A, IH.
  - by rewrite fix_encoding_B, fix_encoding_swapped_B, IH.
  - by rewrite fix_encoding_other, fix_encoding_swapped_other, IH.
Qed.

(** * The script *)

Section script.
Import Py.
Context {P : Platform}.
Implicit Types (w : world) (f : file).

Lemma bind_eq {A B} (m : io A) (k : A → io B) w :
  (m ≫= k) w =
    match m w with
    | (w', Returned x) => k x w'
    | (w', Raised e) => (w', Raised e)
    end.
Proof. reflexivity. Qed.

Lemma open_read_eq path enc w :
  open_ path "r" enc w =
    let w1 := World (files w) (stdout w) (log w ++ [Open path "r" enc]) in
    match files w !! path with
    | None => (w1, Raised FileNotFoundError)
    | Some f =>
        if readable f then
          match text_layer_for enc with
          | None => (w1, Raised LookupError)
          | Some tl => (w1, Returned (Handle path "r" tl))
          end
        else (w1, Raised PermissionError)
    end.
Proof.
  unfold open_, open_raw, record_event, get_file, raise. rewrite !bind_eq. cbn.
  rewrite decide_True by done.
  destruct (files w !! path) as [f|]; [|done].
  destruct (readable f); [|done].
  by destruct (text_layer_for enc).
Qed.

Lemma open_write_eq path enc w :
  open_ path "w" enc w =
    let trunc f := World (<[path := f]> (files w)) (stdout w)
                     (log w ++ [Open path "w" enc]) in
    let opened f :=
      match text_layer_for enc with
      | None => (trunc f, Raised LookupError)
      | Some tl => (trunc f, Returned (Handle path "w" tl))
      end in
    match files w !! path with
    | None => opened (File [] true true)
    | Some f =>
        if writable f then opened (File [] (readable f) (writable f))
        else (World (files w) (stdout w) (log w ++ [Open path "w" enc]),
              Raised PermissionError)
    end.
Proof.
  unfold open_, open_raw, record_event, get_file, put_file, raise.
  rewrite !bind_eq. cbn.
  rewrite decide_False, decide_True by done.
  destruct (files w !! path) as [f|].
  - destruct (writable f); [|done]. by destruct (text_layer_for enc).
  - by destruct (text_layer_for enc).
Qed.

Lemma read_eq path tl w :
  read (Handle path "r" tl) w =
    match files w !! path with
    | None => (w, Raised FileNotFoundError)
    | Some f =>
        match decode tl (data f) with
        | None => (w, Raised UnicodeDecodeError)
        | Some s => (w, Returned s)
        end
    end.
Proof.
  unfold read, get_file, raise. cbn [h_mode h_path h_layer].
  rewrite decide_True by done. rewrite bind_eq.
  destruct (files w !! path) as [f|]; [|done].
  by destruct (decode tl (data f)).
Qed.

Lemma write_eq path tl s w :
  write (Handle path "w" tl) s w =
    match encode tl s with
    | None => (w, Raised UnicodeEncodeError)
    | Some bs =>
        match files w !! path with
        | None => (w, Raised FileNotFoundError)
        | Some f =>
            (World (<[path := File (data f ++ bs) (readable f) (writable f)]> (files w))
               (stdout w) (log w),
             Returned ())
        end
    end.
Proof.
  unfold write, get_file, put_file, raise. cbn [h_mode h_path h_layer].
  rewrite decide_True by done.
  destruct (encode tl s); [|done].
  rewrite bind_eq. by destruct (files w !! path).
Qed.

(** The run, case by case. *)
Lemma run_eq w :
  run w =
    let w1 := World (files w) (stdout w) (log w ++ [Open target "r" "utf-8"]) in
    let w2 fs out :=
      World fs out (log w ++ [Open target "r" "utf-8"; Open target "w" "utf-8"]) in
    match files w !! target with
    | None => (w1, Raised FileNotFoundError)
    | Some f =>
        if readable f then
          match text_layer_for "utf-8" with
          | None => (w1, Raised LookupError)
          | Some tl =>
              match decode tl (data f) with
              | None => (w1, Raised UnicodeDecodeError)
              | Some content =>
                  if writable f then
                    match encode tl (fix_encoding content) with
                    | None =>
                        (w2 (<[target := File [] true true]> (files w)) (stdout w),
                         Raised UnicodeEncodeError)
                    | Some bs =>
                        (w2 (<[target := File bs true true]> (files w))
                            (stdout w ++ message ++ [newline]),
                         Returned ())
                    end
                  else (w2 (files w) (stdout w), Raised PermissionError)
              end
          end
        else (w1, Raised PermissionError)
    end.
Proof.
  unfold run, main, with_open. rewrite !bind_eq, open_read_eq. cbn zeta.
  destruct (files w !! target) as [[d r wr]|] eqn:Hf; [|done].
  cbn [readable writable data]. destruct r; [|done].
  destruct (text_layer_for "utf-8") as [tl|] eqn:Htl; [|done].
  rewrite read_eq. cbn [files]. rewrite Hf. cbn [data].
  destruct (decode tl d) as [content|]; [|done].
  rewrite !bind_eq, open_write_eq. cbn [files stdout log]. rewrite Hf, Htl.
  rewrite <-(assoc_L (++)). cbn [app readable writable].
  destruct wr; [|done]. cbn zeta.
  rewrite write_eq. fold (fix_encoding content).
  destruct (encode tl (fix_encoding content)) as [bs|]; [|done].
  cbn [files stdout log]. rewrite lookup_insert_eq, insert_insert_eq.
  reflexivity.
Qed.

Lemma opened_app w w' evs : log w' = log w ++ evs → opened w w' = evs.
Proof. intros Hlog. unfold opened. by rewrite Hlog, drop_app_length. Qed.

Lemma printed_app w w' out : stdout w' = stdout w ++ out → printed w w' = out.
Proof. intros Hout. unfold printed. by rewrite Hout, drop_app_length. Qed.

(** What a run leaves behind, in every case. *)
Lemma run_log w :
  log (run w).1 = log w ++ [Open target "r" "utf-8"]
  ∨ log (run w).1 = log w ++ [Open target "r" "utf-8"; Open target "w" "utf-8"].
Proof.
  rewrite run_eq. cbn zeta.
  repeat case_match; cbn [fst log]; auto.
Qed.

Lemma run_returned w w' :
  run w = (w', Returned ()) →
  ∃ tl d content bs,
    text_layer_for "utf-8" = Some tl
    ∧ files w !! target = Some (File d true true)
    ∧ decode tl d = Some content
    ∧ encode tl (fix_encoding content) = Some bs
    ∧ w' = World (<[target := File bs true true]> (files w))
             (stdout w ++ message ++ [newline])
             (log w ++ [Open target "r" "utf-8"; Open target "w" "utf-8"]).
Proof.
  rewrite run_eq. cbn zeta. intros Hrun.
  destruct (files w !! target) as [[d r wr]|]; [|done].
  cbn [readable writable data] in Hrun. destruct r; [|done].
  destruct (text_layer_for "utf-8") as [tl|]; [|done].
  destruct (decode tl d) as [content|] eqn:Hd; [|done].
  destruct wr; [|done].
  destruct (encode tl (fix_encoding content)) as [bs|] eqn:He; [|done].
  injection Hrun as <-. by exists tl, d, content, bs.
Qed.

End script.

(** * Properties of a run of the script *)

Section run_facts.
Import Py.
Context {P : Platform}.
Implicit Types (w : world) (f : file).

(** C1: after a successful run the target file holds the text read
    from it with every occurrence of pattern A replaced by the
    replacement string and then every occurrence of pattern B replaced
    by the replacement string, each substitution taken left to right;
    this is the value of the two [replace] calls of lines 8-9. *)
Theorem run_writes_two_substitutions w w' :
  run w = (w', Returned ()) →
  ∃ tl f content mid out bs,
    text_layer_for "utf-8" = Some tl
    ∧ files w !! target = Some f
    ∧ decode tl (data f) = Some content
    ∧ Str.substituted pattern_A replacement content mid
    ∧ Str.substituted pattern_B replacement mid out
    ∧ out = Str.replace pattern_B replacement
              (Str.replace pattern_A replacement content)
    ∧ encode tl out = Some bs
    ∧ data <$> files w' !! target = Some bs.
Proof.
  intros (tl & d & content & bs & Htl & Hf & Hd & He & ->)%run_returned.
  exists tl, (File d true true), content,
    (Str.replace pattern_A replacement content), (fix_encoding content), bs.
  repeat split; try done.
  - apply replace_substituted. auto with patterns.
  - apply replace_substituted. auto with patterns.
  - cbn [files]. by rewrite lookup_insert_eq.
Qed.

(** C6: when the target does not exist or may not be read, the run
    raises at the read step, [FileNotFoundError] in the first case and
    [PermissionError] in the second; the only call of [open] is the one
    for reading, and the file system and the standard output are left
    as they were. *)
Theorem run_missing_target_no_write w :
  files w !! target = None
  ∨ (∃ f, files w !! target = Some f ∧ readable f = false) →
  (run w).2 = Raised (match files w !! target with
                      | None => FileNotFoundError
                      | Some _ => PermissionError
                      end)
  ∧ opened w (run w).1 = [Open target "r" "utf-8"]
  ∧ files (run w).1 = files w
  ∧ stdout (run w).1 = stdout w.
Proof.
  intros Hw.
  assert (run w = (World (files w) (stdout w) (log w ++ [Open target "r" "utf-8"]),
                   Raised (match files w !! target with
                           | None => FileNotFoundError
                           | Some _ => PermissionError
                           end))) as ->.
  { rewrite run_eq. cbn zeta.
    destruct Hw as [-> | (f & -> & ->)]; reflexivity. }
  cbn [fst snd files stdout]. repeat split. by apply opened_app.
Qed.

(** C7: a successful run appends to the standard output the line
    [Fixed encoding issues in Main.java] and its line end, and nothing
    else; the message holds no line end of its own. *)
Theorem run_prints_confirmation w w' :
  run w = (w', Returned ()) →
  stdout w' = stdout w ++ message ++ [newline]
  ∧ printed w w' = lit "Fixed encoding issues in Main.java" ++ [newline]
  ∧ newline ∉ message.
Proof.
  intros (tl & d & content & bs & _ & _ & _ & _ & ->)%run_returned.
  cbn [stdout]. split; [done|]. split; [by apply printed_app|].
  apply (bool_decide_unpack _). vm_compute. reflexivity.
Qed.

(** C8: a run calls [open] on the fixed path only, first for reading
    and then, if it gets that far, for writing, both times with the
    encoding [utf-8]; every other path of the file system is as it was
    before the run. *)
Theorem run_touches_only_target w :
  target = "src/main/java/converter/Main.java"
  ∧ (∀ path, path ≠ target → files (run w).1 !! path = files w !! path)
  ∧ log (run w).1 = log w ++ opened w (run w).1
  ∧ (opened w (run w).1 = [Open target "r" "utf-8"]
     ∨ opened w (run w).1 = [Open target "r" "utf-8"; Open target "w" "utf-8"])
  ∧ ((run w).2 = Returned () →
     opened w (run w).1 = [Open target "r" "utf-8"; Open target "w" "utf-8"]).
Proof.
  split; [reflexivity|]. split; [|split; [|split]].
  - intros path Hpath. rewrite run_eq. cbn zeta.
    repeat case_match; cbn [fst files]; by rewrite ?lookup_insert_ne.
  - destruct (run_log w) as [Hlog | Hlog];
      by rewrite (opened_app _ _ _ Hlog).
  - destruct (run_log w) as [Hlog | Hlog];
      rewrite (opened_app _ _ _ Hlog); auto.
  - destruct (run w) as [w' o] eqn:Hrun. cbn [fst snd]. intros ->.
    apply run_returned in Hrun as (tl & d & content & bs & _ & _ & _ & _ & ->).
    by apply opened_app.
Qed.

(** A run that raises prints nothing. *)
Lemma run_raised_prints_nothing w e : (run w).2 = Raised e → stdout (run w).1 = stdout w.
Proof.
  rewrite run_eq. cbn zeta. repeat case_match; cbn [fst snd stdout]; done.
Qed.


(** X12: a second run.  If the text layer reads back the text the first
    run wrote, the second run succeeds and leaves the file system as
    the first run left it. *)
Lemma run_twice w w' tl f content :
  run w = (w', Returned ()) →
  text_layer_for "utf-8" = Some tl →
  files w !! target = Some f →
  decode tl (data f) = Some content →
  (∀ bs, encode tl (fix_encoding content) = Some bs →
         decode tl bs = Some (fix_encoding content)) →
  (run w').2 = Returned () ∧ files (run w').1 = files w'.
Proof.
  intros (tl' & d & content' & bs & Htl' & Hf' & Hd' & He' & ->)%run_returned
    Htl Hf Hd Hback.
  simplify_eq/=. specialize (Hback _ He').
  rewrite run_eq. cbn zeta. cbn [files].
  rewrite lookup_insert_eq. cbn [readable writable data].
  rewrite Htl', Hback.
  rewrite (fix_encoding_absent (fix_encoding _))
    by first [apply fix_encoding_no_A | apply fix_encoding_no_B].
  rewrite He'. cbn [fst snd files]. by rewrite insert_insert_eq.
Qed.

End run_facts.

(** ** Runs on a POSIX platform *)

Lemma run_writes_two_substitutions_witness :
  Py.run (P := Utf8.posix) (world_with scenario1_in)
    = (after_run (world_with scenario1_in), Py.Returned ())
  ∧ ∃ tl f content mid out bs,
      Py.text_layer_for (Platform := Utf8.posix) "utf-8" = Some tl
      ∧ Py.files (world_with scenario1_in) !! target = Some f
      ∧ Py.decode tl (Py.data f) = Some content
      ∧ Str.substituted pattern_A replacement content mid
      ∧ Str.substituted pattern_B replacement mid out
      ∧ out = Str.replace pattern_B replacement
                (Str.replace pattern_A replacement content)
      ∧ Py.encode tl out = Some bs
      ∧ Py.data <$> Py.files (after_run (world_with scenario1_in)) !! target = Some bs.
Proof.
  assert (Py.run (P := Utf8.posix) (world_with scenario1_in)
          = (after_run (world_with scenario1_in), Py.Returned ())) as Hrun
    by (vm_compute; reflexivity).
  split; [exact Hrun|].
  exact (run_writes_two_substitutions (P := Utf8.posix) _ _ Hrun).
Defined.

Lemma run_missing_target_no_write_witness :
  (Py.run (P := Utf8.posix) world_without).2 = Py.Raised Py.FileNotFoundError
  ∧ Py.opened world_without (Py.run (P := Utf8.posix) world_without).1
      = [Py.Open target "r" "utf-8"]
  ∧ Py.files (Py.run (P := Utf8.posix) world_without).1 = Py.files world_without
  ∧ Py.stdout (Py.run (P := Utf8.posix) world_without).1 = Py.stdout world_without.
Proof.
  apply (run_missing_target_no_write (P := Utf8.posix) world_without).
  left. vm_compute. reflexivity.
Defined.

Lemma run_prints_confirmation_witness :
  Py.stdout (after_run (world_only scenario2_in))
    = Py.stdout (world_only scenario2_in) ++ message ++ [newline]
  ∧ Py.printed (world_only scenario2_in) (after_run (world_only scenario2_in))
      = lit "Fixed encoding issues in Main.java" ++ [newline]
  ∧ newline ∉ message.
Proof.
  apply (run_prints_confirmation (P := Utf8.posix) (world_only scenario2_in)).
  vm_compute. reflexivity.
Defined.

Lemma run_touches_only_target_witness :
  Py.files (after_run (world_with scenario2_in)) !! "README.md"
  = Py.files (world_with scenario2_in) !! "README.md".
Proof.
  apply (run_touches_only_target (P := Utf8.posix) (world_with scenario2_in)).
  vm_compute. discriminate.
Defined.


(** The three scenarios as files. *)
Example run_scenario1 :
  Py.data <$> Py.files (after_run (world_with scenario1_in)) !! target
  = Some (Utf8.bytes_of scenario1_out).
Proof. vm_compute. reflexivity. Qed.

Example run_scenario2 :
  Py.data <$> Py.files (after_run (world_with scenario2_in)) !! target
  = Some (Utf8.bytes_of scenario2_out).
Proof. vm_compute. reflexivity. Qed.

Example run_scenario3 :
  Py.files (after_run (world_with scenario3)) = Py.files (world_with scenario3).
Proof. vm_compute. reflexivity. Qed.

(** An unreadable target: the run stops at the read step. *)
Example run_unreadable :
  Py.run (P := Utf8.posix) (world_unreadable scenario1_in)
  = (Py.World (Py.files (world_unreadable scenario1_in)) []
       [Py.Open target "r" "utf-8"],
     Py.Raised Py.PermissionError).
Proof. vm_compute. reflexivity. Qed.

(** A second run on the patched scenario changes nothing. *)
Example run_twice_scenario1 :
  Py.files (after_run (after_run (world_with scenario1_in)))
  = Py.files (after_run (world_with scenario1_in)).
Proof. vm_compute. reflexivity. Qed.

(** Text mode translates line ends: a file with a CR LF line end and
    neither pattern comes back with LF, although [fix_encoding] returns
    the text it was given. *)
Example run_translates_line_ends :
  Py.data <$> Py.files (after_run (world_with (lit "a" ++ [carriage_return; newline]))) !! target
  = Some (Utf8.bytes_of (lit "a" ++ [newline])).
Proof. vm_compute. reflexivity. Qed.

(** * Further theory of the string operations *)

Section str_composition.
Context {A : Type} `{!EqDecision A}.
Implicit Types (p old new s t u w : list A) (c m : A).

(** A character foreign to the pattern ends every match attempt. *)
Lemma startswith_app_foreign p s c t :
  c ∉ p → Str.startswith p (s ++ c :: t) = Str.startswith p s.
Proof.
  revert s. induction p as [|a p IH]; intros s Hc; [done|].
  apply not_elem_of_cons in Hc as [Hca Hcp].
  destruct s as [|b s]; simpl.
  - by rewrite bool_decide_eq_false_2.
  - f_equal. by apply IH.
Qed.

Lemma replace_split_foreign old new s c t :
  old ≠ [] → c ∉ old →
  Str.replace old new (s ++ c :: t)
  = Str.replace old new s ++ c :: Str.replace old new t.
Proof.
  intros Hold Hc.
  assert (∀ s', Str.startswith old (s' ++ c :: t) = Str.startswith old s') as Hs
    by (intros s'; by apply startswith_app_foreign).
  induction s as [|s IH|c0 s Hmiss IH] using (scan_ind old Hold).
  - rewrite replace_nil by done. simpl. apply replace_miss.
    change (c :: t) with ([] ++ c :: t). rewrite Hs. by destruct old.
  - rewrite <-(assoc_L (++)), !replace_hit, IH by done.
    by rewrite <-(assoc_L (++)).
  - change ((c0 :: s) ++ c :: t) with (c0 :: (s ++ c :: t)).
    assert (Str.startswith old (c0 :: (s ++ c :: t)) = false) as Hmiss'.
    { change (c0 :: (s ++ c :: t)) with ((c0 :: s) ++ c :: t). by rewrite Hs. }
    by rewrite !replace_miss, IH by done.
Qed.

(** A match cannot run from the text before a headed block into the
    block. *)
Lemma startswith_before_block m p w c s u :
  Str.headed m p → Str.headed m w →
  Str.startswith p (c :: s ++ w ++ u) = Str.startswith p (c :: s).
Proof.
  intros (p' & -> & Hp)%headed_inv (w' & -> & _)%headed_inv. simpl.
  f_equal. by apply startswith_app_foreign.
Qed.

Lemma count_nil p : p ≠ [] → Str.count p [] = 0.
Proof. by destruct p. Qed.

Lemma count_hit p t : p ≠ [] → Str.count p (p ++ t) = S (Str.count p t).
Proof.
  destruct p as [|a p']; [done|]. intros _. unfold Str.count.
  change ((a :: p') ++ t) with (a :: (p' ++ t)). cbn [Str.count_from].
  change (a :: (p' ++ t)) with ((a :: p') ++ t). rewrite startswith_app.
  cbn [length pred]. by rewrite count_from_skip.
Qed.

Lemma count_miss p c s :
  Str.startswith p (c :: s) = false → Str.count p (c :: s) = Str.count p s.
Proof.
  destruct p as [|a p']; [done|]. intros Hs. unfold Str.count.
  cbn [Str.count_from]. by rewrite Hs.
Qed.

(** Every replaced match trades the length of [old] for that of
    [new]. *)
Lemma replace_length old new s :
  old ≠ [] →
  length (Str.replace old new s) + Str.count old s * length old
  = length s + Str.count old s * length new.
Proof.
  intros Hold. induction s as [|t IH|c s Hs IH] using (scan_ind old Hold).
  - by rewrite replace_nil, count_nil.
  - rewrite replace_hit, count_hit, !length_app by done. lia.
  - rewrite replace_miss, count_miss by done. simpl. lia.
Qed.

(** The result holds no character that is neither in the input nor in
    [new]. *)
Lemma replace_chars old new s c :
  old ≠ [] → c ∈ Str.replace old new s → c ∈ s ∨ c ∈ new.
Proof.
  intros Hold. induction s as [|t IH|c0 s Hs IH] using (scan_ind old Hold).
  - rewrite replace_nil by done. auto.
  - rewrite replace_hit by done. rewrite !elem_of_app. intuition.
  - rewrite replace_miss by done. rewrite !elem_of_cons. intuition.
Qed.

End str_composition.

(** * Further properties of the transformation of lines 8-9 *)

Section transformation_more.
Implicit Types (content s t w : str) (c : char).

Lemma fix_encoding_R_block t :
  fix_encoding (replacement ++ t) = replacement ++ fix_encoding t.
Proof.
  unfold fix_encoding.
  rewrite (replace_copies_block marker) by auto using A_at_R with patterns.
  apply (replace_copies_block marker); auto using B_at_R with patterns.
Qed.

(** A headed block is transformed on its own, whatever precedes it. *)
Lemma fix_encoding_around w w' :
  Str.headed marker w →
  (∀ t, fix_encoding (w ++ t) = w' ++ fix_encoding t) →
  ∀ s t, fix_encoding (s ++ w ++ t) = fix_encoding s ++ w' ++ fix_encoding t.
Proof.
  intros Hw Hfix s t.
  induction s as [|s IH|s IH|c s HA HB IH] using scan_both_ind.
  - apply Hfix.
  - by rewrite <-(assoc_L (++)), !fix_encoding_A, IH, <-(assoc_L (++)).
  - by rewrite <-(assoc_L (++)), !fix_encoding_B, IH, <-(assoc_L (++)).
  - change ((c :: s) ++ w ++ t) with (c :: (s ++ w ++ t)).
    rewrite !fix_encoding_other, IH; try done.
    + by rewrite (startswith_before_block marker) by auto with patterns.
    + by rewrite (startswith_before_block marker) by auto with patterns.
Qed.

(** X1: each replaced occurrence of pattern A makes the content three
    characters longer and each replaced occurrence of pattern B five
    characters longer; nothing else changes the length. *)
Theorem fix_encoding_length content :
  length (fix_encoding content)
  = length content + 3 * Str.occurrences pattern_A content
    + 5 * Str.occurrences pattern_B content.
Proof.
  pose proof (replace_length pattern_A replacement content pattern_A_nonempty) as HA.
  pose proof (replace_length pattern_B replacement
                (Str.replace pattern_A replacement content) pattern_B_nonempty) as HB.
  destruct (count_patterns content) as (CA & _ & _).
  destruct (count_patterns (Str.replace pattern_A replacement content))
    as (_ & CB & _).
  rewrite CA in HA. rewrite CB, occurrences_B_after_A in HB.
  change (length pattern_A) with 14 in HA.
  change (length pattern_B) with 12 in HB.
  change (length replacement) with 17 in HA, HB.
  unfold fix_encoding. lia.
Qed.

(** X2: the transformation returns its input unchanged exactly when
    neither pattern occurs in it. *)
Theorem fix_encoding_unchanged_iff content :
  fix_encoding content = content
  ↔ Str.occurrences pattern_A content = 0 ∧ Str.occurrences pattern_B content = 0.
Proof.
  split; [|intros [HA HB]; by apply fix_encoding_absent].
  intros Hfix. pose proof (fix_encoding_R content) as HR.
  rewrite Hfix in HR. lia.
Qed.

(** X3: the transformation works piece by piece across any character
    that occurs in neither pattern, a line end for one: such a
    character is kept and the texts on its two sides are transformed
    independently. *)
Theorem fix_encoding_split_at s c t :
  c ∉ pattern_A → c ∉ pattern_B →
  fix_encoding (s ++ c :: t) = fix_encoding s ++ c :: fix_encoding t.
Proof.
  intros HA HB. unfold fix_encoding.
  by rewrite !replace_split_foreign by auto with patterns.
Qed.

Lemma fix_encoding_split_at_witness :
  (newline ∉ pattern_A) ∧ (newline ∉ pattern_B)
  ∧ fix_encoding (scenario1_in ++ newline :: scenario2_in)
    = fix_encoding scenario1_in ++ newline :: fix_encoding scenario2_in.
Proof.
  assert (newline ∉ pattern_A) as HA
    by (apply (bool_decide_unpack _); vm_compute; reflexivity).
  assert (newline ∉ pattern_B) as HB
    by (apply (bool_decide_unpack _); vm_compute; reflexivity).
  split; [exact HA|]. split; [exact HB|].
  exact (fix_encoding_split_at scenario1_in newline scenario2_in HA HB).
Defined.

(** X4: an occurrence of pattern A or of pattern B is replaced by the
    replacement string wherever it stands, and a replacement string
    already in the content stays where it is; the texts before and
    after are transformed independently. *)
Theorem fix_encoding_at_occurrence s t :
  fix_encoding (s ++ pattern_A ++ t) = fix_encoding s ++ replacement ++ fix_encoding t
  ∧ fix_encoding (s ++ pattern_B ++ t) = fix_encoding s ++ replacement ++ fix_encoding t
  ∧ fix_encoding (s ++ replacement ++ t) = fix_encoding s ++ replacement ++ fix_encoding t.
Proof.
  split; [|split].
  - apply fix_encoding_around; auto using fix_encoding_A with patterns.
  - apply fix_encoding_around; auto using fix_encoding_B with patterns.
  - apply fix_encoding_around; auto using fix_encoding_R_block with patterns.
Qed.

(** X5: the transformation introduces no character of its own other
    than those of the replacement string: every character of the
    output is a character of the input or of the replacement string. *)
Theorem fix_encoding_chars content c :
  c ∈ fix_encoding content → c ∈ content ∨ c ∈ replacement.
Proof.
  unfold fix_encoding. intros Hc.
  apply replace_chars in Hc as [Hc | Hc]; [|by right|auto with patterns].
  apply replace_chars in Hc; auto with patterns.
Qed.

Lemma fix_encoding_chars_witness :
  backslash ∈ fix_encoding scenario1_in
  ∧ (backslash ∈ scenario1_in ∨ backslash ∈ replacement).
Proof.
  assert (backslash ∈ fix_encoding scenario1_in) as Hc
    by (apply (bool_decide_unpack _); vm_compute; reflexivity).
  split; [exact Hc|]. exact (fix_encoding_chars scenario1_in backslash Hc).
Defined.

End transformation_more.

(** * Further properties of a run of the script *)

Section run_more.
Import Py.
Context {P : Platform}.
Implicit Types (w : world) (f : file).

(** X6: the run returns only if the target exists and may be read and
    written, its bytes decode, and the transformed text encodes. *)
Theorem run_returns_only_if w :
  (run w).2 = Returned () →
  ∃ tl d content bs,
    text_layer_for "utf-8" = Some tl
    ∧ files w !! target = Some (File d true true)
    ∧ decode tl d = Some content
    ∧ encode tl (fix_encoding content) = Some bs.
Proof.
  destruct (run w) as [w' o] eqn:Hrun. cbn [snd]. intros ->.
  apply run_returned in Hrun as (tl & d & content & bs & ? & ? & ? & ? & _).
  by exists tl, d, content, bs.
Qed.

(** X7: when the target can be read and decoded but may not be
    written, the run raises [PermissionError] at the second call of
    [open]; the file system is left as it was and nothing is printed. *)
Theorem run_write_protected w f tl content :
  files w !! target = Some f →
  readable f = true → writable f = false →
  text_layer_for "utf-8" = Some tl →
  decode tl (data f) = Some content →
  (run w).2 = Raised PermissionError
  ∧ opened w (run w).1 = [Open target "r" "utf-8"; Open target "w" "utf-8"]
  ∧ files (run w).1 = files w
  ∧ stdout (run w).1 = stdout w.
Proof.
  intros Hf Hr Hw Htl Hd. rewrite run_eq. cbn zeta.
  rewrite Hf, Hr, Htl, Hd, Hw. cbn [fst snd files stdout].
  repeat split. by apply opened_app.
Qed.

(** X8: when the bytes of the target do not decode, the run raises
    [UnicodeDecodeError] at the read; the file is never opened for
    writing, the file system is left as it was and nothing is
    printed. *)
Theorem run_undecodable w f tl :
  files w !! target = Some f →
  readable f = true →
  text_layer_for "utf-8" = Some tl →
  decode tl (data f) = None →
  (run w).2 = Raised UnicodeDecodeError
  ∧ opened w (run w).1 = [Open target "r" "utf-8"]
  ∧ files (run w).1 = files w
  ∧ stdout (run w).1 = stdout w.
Proof.
  intros Hf Hr Htl Hd. rewrite run_eq. cbn zeta.
  rewrite Hf, Hr, Htl, Hd. cbn [fst snd files stdout].
  repeat split. by apply opened_app.
Qed.

(** X9: a run creates no file, removes none and changes no access
    right: the paths of the file system and what may be read and
    written are as before, whether the run returns or raises. *)
Theorem run_keeps_paths_and_access w :
  dom (files (run w).1) = dom (files w)
  ∧ ∀ path,
      readable <$> files (run w).1 !! path = readable <$> files w !! path
      ∧ writable <$> files (run w).1 !! path = writable <$> files w !! path.
Proof.
  rewrite run_eq. cbn zeta.
  destruct (files w !! target) as [[d r wr]|] eqn:Hf; [|done].
  cbn [readable writable data].
  assert (∀ bs, dom (<[target := File bs true true]> (files w)) = dom (files w))
    as Hdom by (intros bs; by apply dom_insert_lookup_L).
  assert (∀ bs path, r = true → wr = true →
            (readable <$> <[target := File bs true true]> (files w) !! path
               = readable <$> files w !! path)
            ∧ (writable <$> <[target := File bs true true]> (files w) !! path
               = writable <$> files w !! path)) as Hacc.
  { intros bs path -> ->. destruct (decide (path = target)) as [->|Hne].
    - by rewrite lookup_insert_eq, Hf.
    - by rewrite lookup_insert_ne. }
  repeat case_match; cbn [fst files]; auto.
Qed.

(** X10: the confirmation is printed exactly when the run returns: a
    run that raises, at whatever step, leaves the standard output as
    it was. *)
Theorem run_prints_iff_returns w :
  (run w).2 = Returned () ↔ stdout (run w).1 ≠ stdout w.
Proof.
  split.
  - destruct (run w) as [w' o] eqn:Hrun. cbn [fst snd]. intros ->.
    apply run_returned in Hrun as (tl & d & content & bs & _ & _ & _ & _ & ->).
    cbn [stdout]. intros Heq. apply (f_equal length) in Heq.
    rewrite !length_app in Heq. simpl in Heq. lia.
  - intros Hout. destruct ((run w).2) as [[]|e] eqn:Ho; [done|].
    by apply run_raised_prints_nothing in Ho.
Qed.

End run_more.

Lemma run_write_protected_witness :
  (Py.run (P := Utf8.posix) (world_write_protected scenario1_in)).2
    = Py.Raised Py.PermissionError
  ∧ Py.opened (world_write_protected scenario1_in)
      (Py.run (P := Utf8.posix) (world_write_protected scenario1_in)).1
    = [Py.Open target "r" "utf-8"; Py.Open target "w" "utf-8"]
  ∧ Py.files (Py.run (P := Utf8.posix) (world_write_protected scenario1_in)).1
    = Py.files (world_write_protected scenario1_in)
  ∧ Py.stdout (Py.run (P := Utf8.posix) (world_write_protected scenario1_in)).1
    = Py.stdout (world_write_protected scenario1_in).
Proof.
  apply (run_write_protected (P := Utf8.posix) (world_write_protected scenario1_in)
           (Py.File (Utf8.bytes_of scenario1_in) true false)
           (Utf8.layer [newline]) scenario1_in).
  - vm_compute. reflexivity.
  - reflexivity.
  - reflexivity.
  - reflexivity.
  - vm_compute. reflexivity.
Defined.

Lemma run_undecodable_witness :
  (Py.run (P := Utf8.posix) (world_bytes [Byte.xff])).2
    = Py.Raised Py.UnicodeDecodeError
  ∧ Py.opened (world_bytes [Byte.xff])
      (Py.run (P := Utf8.posix) (world_bytes [Byte.xff])).1
    = [Py.Open target "r" "utf-8"]
  ∧ Py.files (Py.run (P := Utf8.posix) (world_bytes [Byte.xff])).1
    = Py.files (world_bytes [Byte.xff])
  ∧ Py.stdout (Py.run (P := Utf8.posix) (world_bytes [Byte.xff])).1
    = Py.stdout (world_bytes [Byte.xff]).
Proof.
  apply (run_undecodable (P := Utf8.posix) (world_bytes [Byte.xff])
           (Py.File [Byte.xff] true true) (Utf8.layer [newline])).
  - vm_compute. reflexivity.
  - reflexivity.
  - reflexivity.
  - vm_compute. reflexivity.
Defined.

Lemma run_twice_witness :
  (Py.run (P := Utf8.posix) (after_run (world_with scenario1_in))).2 = Py.Returned ()
  ∧ Py.files (Py.run (P := Utf8.posix) (after_run (world_with scenario1_in))).1
    = Py.files (after_run (world_with scenario1_in)).
Proof.
  apply (run_twice (P := Utf8.posix) (world_with scenario1_in)
           (after_run (world_with scenario1_in)) (Utf8.layer [newline])
           (Py.File (Utf8.bytes_of scenario1_in) true true) scenario1_in).
  - vm_compute. reflexivity.
  - reflexivity.
  - vm_compute. reflexivity.
  - vm_compute. reflexivity.
  - intros bs Hbs. vm_compute in Hbs. injection Hbs as <-.
    vm_compute. reflexivity.
Defined.

Lemma run_returns_only_if_witness :
  ∃ tl d content bs,
    Py.text_layer_for (Platform := Utf8.posix) "utf-8" = Some tl
    ∧ Py.files (world_with scenario1_in) !! target = Some (Py.File d true true)
    ∧ Py.decode tl d = Some content
    ∧ Py.encode tl (fix_encoding content) = Some bs.
Proof.
  apply (run_returns_only_if (P := Utf8.posix) (world_with scenario1_in)).
  vm_compute. reflexivity.
Defined.

(** * Line ends, access rights and the platform *)

(** C3, as stated, fails at the level of the file: on a POSIX platform
    a returning run on a file that holds [a], CR, LF, and so neither
    pattern, leaves the file holding [a], LF.  Text mode has turned the
    line end into LF on reading and the script wrote that text back. *)
Lemma run_rewrites_pattern_free_file :
  Str.occurrences pattern_A crlf_line = 0
  ∧ Str.occurrences pattern_B crlf_line = 0
  ∧ (Py.run (P := Utf8.posix) (world_with crlf_line)).2 = Py.Returned ()
  ∧ Py.data <$> Py.files (world_with crlf_line) !! target
    = Some (Utf8.bytes_of crlf_line)
  ∧ Py.data <$> Py.files (after_run (world_with crlf_line)) !! target
    = Some (Utf8.bytes_of lf_line)
  ∧ Py.data <$> Py.files (after_run (world_with crlf_line)) !! target
    ≠ Py.data <$> Py.files (world_with crlf_line) !! target.
Proof.
  repeat split; try (vm_compute; reflexivity).
  intros Heq. vm_compute in Heq. discriminate.
Qed.

(** The same on a Windows platform, the other way round: a file that
    holds [a], LF comes back holding [a], CR, LF. *)
Example run_rewrites_pattern_free_file_windows :
  (Py.run (P := Utf8.windows) (world_with lf_line)).2 = Py.Returned ()
  ∧ Py.data <$> Py.files (Py.run (P := Utf8.windows) (world_with lf_line)).1 !! target
    = Some (Utf8.bytes_of crlf_line).
Proof. split; vm_compute; reflexivity. Qed.

Section text_level.
Import Py.
Context {P : Platform}.
Implicit Types (w : world) (f : file).

(** C3, amended: a content in which neither pattern occurs is returned
    by the transformation exactly as it is.  So a returning run that
    read such a content writes the same text back: the target then
    holds the encoding of the text that was read, and the file system
    is as it was whenever the text layer encodes that text to the
    bytes it was decoded from. *)
Theorem run_without_patterns :
  (∀ content : str,
     Str.occurrences pattern_A content = 0 →
     Str.occurrences pattern_B content = 0 →
     fix_encoding content = content)
  ∧ (∀ w w' tl f content,
       run w = (w', Returned ()) →
       text_layer_for "utf-8" = Some tl →
       files w !! target = Some f →
       decode tl (data f) = Some content →
       Str.occurrences pattern_A content = 0 →
       Str.occurrences pattern_B content = 0 →
       data <$> files w' !! target = encode tl content
       ∧ (encode tl content = Some (data f) → files w' = files w)).
Proof.
  split; [apply fix_encoding_absent|].
  intros w w' tl f content Hrun Htl Hf Hd HA HB.
  apply run_returned in Hrun
    as (tl' & d & content' & bs & Htl' & Hf' & Hd' & He' & ->).
  simplify_eq/=. rewrite fix_encoding_absent in He' by done.
  rewrite He'. cbn [files]. rewrite lookup_insert_eq. split; [done|].
  intros [= ->]. by apply insert_id.
Qed.

End text_level.

Lemma run_without_patterns_witness :
  fix_encoding scenario3 = scenario3
  ∧ Py.data <$> Py.files (after_run (world_with scenario3)) !! target
    = Py.encode (Utf8.layer [newline]) scenario3
  ∧ Py.files (after_run (world_with scenario3)) = Py.files (world_with scenario3).
Proof.
  destruct (run_without_patterns (P := Utf8.posix)) as [Htext Hrun].
  split; [apply (Htext scenario3); reflexivity|].
  destruct (Hrun (world_with scenario3) (after_run (world_with scenario3))
              (Utf8.layer [newline])
              (Py.File (Utf8.bytes_of scenario3) true true) scenario3)
    as [Hdata Hfiles].
  - vm_compute. reflexivity.
  - reflexivity.
  - vm_compute. reflexivity.
  - vm_compute. reflexivity.
  - reflexivity.
  - reflexivity.
  - split; [exact Hdata|]. apply Hfiles. vm_compute. reflexivity.
Defined.

